(** * pkg/security/security.go: shared security data model and token extraction

    A shallow embedding of the Go package [security]: its reserved constants,
    the [SecretItem], [Options] and [Caller] records, and the two bearer-token
    extractors [ExtractBearerToken] and [ExtractRequestToken], together with
    the parts of the Go standard library (strings, net/textproto, net/http)
    and of google.golang.org/grpc/metadata they are written against.

    It also embeds the audience list [TokenAudiences], which the package
    splits out of the environment variable TOKEN_AUDIENCES.

    Go strings are byte sequences; they are embedded as [string], whose
    characters are the 256 [ascii] bytes.  A Go [map[string][]string] is a
    [gmap string (list string)].  A Go [(string, error)] result is a pair
    [string * option error], [None] being the nil error. *)

From Stdlib Require Import ZArith QArith Lia Bool Ascii String List.
From stdpp Require Import base option strings list gmap.

Local Open Scope string_scope.
Local Open Scope list_scope.

(** ** Go standard library: package strings *)

Module strings.

(** [s[:n]] for [n <= len(s)]. *)
Definition slice_to (s : string) (n : nat) : string :=
  String.substring 0 n s.

(** [s[n:]] for [n <= len(s)]. *)
Definition slice_from (s : string) (n : nat) : string :=
  String.substring n (String.length s - n) s.

(** func HasPrefix(s, prefix string) bool {
      return len(s) >= len(prefix) && s[:len(prefix)] == prefix } *)
Definition HasPrefix (s prefix : string) : bool :=
  (String.length prefix <=? String.length s)%nat
  && String.eqb (slice_to s (String.length prefix)) prefix.

(** func TrimPrefix(s, prefix string) string {
      if HasPrefix(s, prefix) { return s[len(prefix):] }
      return s } *)
Definition TrimPrefix (s prefix : string) : string :=
  if HasPrefix s prefix then slice_from s (String.length prefix) else s.

(** func Index(s, substr string) int: the index of the first instance of
    [substr] in [s]; [None] is the result -1. *)
Fixpoint Index (s substr : string) : option nat :=
  if HasPrefix s substr then Some 0
  else match s with
       | EmptyString => None
       | String _ rest => option_map S (Index rest substr)
       end.

(** The loop of Count for a non-empty [substr]:
      n := 0
      for { i := Index(s, substr); if i == -1 { return n }
            n++; s = s[i+len(substr):] }
    Every round drops at least one byte of [s], so [len(s)] rounds are
    enough; [fuel] bounds the rounds. *)
Fixpoint countLoop (fuel : nat) (s substr : string) : nat :=
  match fuel with
  | 0 => 0
  | S fuel' =>
      match Index s substr with
      | None => 0
      | Some i =>
          S (countLoop fuel' (slice_from s (i + String.length substr)) substr)
      end
  end.

(** func Count(s, substr string) int, for a non-empty [substr]: the number
    of non-overlapping instances of [substr] in [s]. *)
Definition Count (s substr : string) : nat :=
  countLoop (String.length s) s substr.

(** The loop of genSplit, [k] being the rounds left ([n - i]):
      for i < n { m := Index(s, sep); if m < 0 { break }
                  a[i] = s[:m]; s = s[m+len(sep):]; i++ }
      a[i] = s *)
Fixpoint splitLoop (k : nat) (s sep : string) : list string :=
  match k with
  | 0 => [s]
  | S k' =>
      match Index s sep with
      | None => [s]
      | Some m =>
          slice_to s m
          :: splitLoop k' (slice_from s (m + String.length sep)) sep
      end
  end.

(** func Split(s, sep string) []string { return genSplit(s, sep, 0, -1) },
    for a non-empty [sep] (an empty [sep] takes another branch, which
    explodes [s] into UTF-8 sequences and is not embedded):
      n = Count(s, sep) + 1
      if n > len(s)+1 { n = len(s) + 1 }
      n--
      ... the loop above with [n] rounds *)
Definition Split (s sep : string) : list string :=
  let n := (Count s sep + 1)%nat in
  let n := if (String.length s + 1 <? n)%nat
           then (String.length s + 1)%nat else n in
  splitLoop (n - 1) s sep.

End strings.

(** ** Go standard library: net/textproto and net/http headers *)

Module textproto.

Definition byte_in (lo hi : ascii) (c : ascii) : bool :=
  (nat_of_ascii lo <=? nat_of_ascii c)%nat
  && (nat_of_ascii c <=? nat_of_ascii hi)%nat.

(** The token bytes of RFC 7230: letters, digits and
    [! # $ % & ' * + - . ^ _ ` | ~]. *)
Definition validHeaderFieldByte (c : ascii) : bool :=
  byte_in "a" "z" c || byte_in "A" "Z" c || byte_in "0" "9" c
  || existsb (Ascii.eqb c)
       ["!"; "#"; "$"; "%"; "&"; "'"; "*"; "+"; "-"; "."; "^"; "_"; "`";
        "|"; "~"]%char.

Definition toLower : nat := 32.

(** The rewriting loop of canonicalMIMEHeaderKey: the first letter and
    every letter after a hyphen is upper-cased, every other letter is
    lower-cased. *)
Fixpoint canon (upper : bool) (s : string) : string :=
  match s with
  | EmptyString => EmptyString
  | String c rest =>
      let c' :=
        if upper && byte_in "a" "z" c
        then ascii_of_nat (nat_of_ascii c - toLower)
        else if negb upper && byte_in "A" "Z" c
        then ascii_of_nat (nat_of_ascii c + toLower)
        else c in
      String c' (canon (Ascii.eqb c' "-") rest)
  end.

Fixpoint all_bytes (p : ascii -> bool) (s : string) : bool :=
  match s with
  | EmptyString => true
  | String c rest => p c && all_bytes p rest
  end.

(** A key holding a byte that is not a token byte is returned unchanged. *)
Definition CanonicalMIMEHeaderKey (s : string) : string :=
  if all_bytes validHeaderFieldByte s then canon true s else s.

End textproto.

Module http.

(** type Header map[string][]string *)
Abbreviation Header := (gmap string (list string)).

(** func (h Header) Get(key string) string: the first value stored under
    the canonical form of [key], or the empty string. *)
Definition Header_Get (h : Header) (key : string) : string :=
  match h !! textproto.CanonicalMIMEHeaderKey key with
  | Some (v :: _) => v
  | _ => ""
  end.

(** The part of http.Request the package reads. *)
Record Request := { Header_of : Header }.

End http.

(** ** google.golang.org/grpc/metadata and context *)

Module metadata.

(** type MD map[string][]string *)
Abbreviation MD := (gmap string (list string)).

End metadata.

Module context.

(** The part of a context.Context the package reads: the incoming
    metadata attached to it, if any. *)
Record Context := { incoming : option metadata.MD }.

Definition Background : Context := {| incoming := None |}.

End context.

(** metadata.FromIncomingContext(ctx) (MD, bool): the metadata the call
    returns, [None] being [ok = false]. *)
Definition FromIncomingContext (ctx : context.Context) : option metadata.MD :=
  context.incoming ctx.

(** metadata.NewIncomingContext(ctx, md) *)
Definition NewIncomingContext (ctx : context.Context) (md : metadata.MD)
  : context.Context :=
  {| context.incoming := Some md |}.

(** ** Package security: constants *)

Definition DefaultCertChainFilePath : string := "./etc/certs/cert-chain.pem".
Definition DefaultKeyFilePath : string := "./etc/certs/key.pem".
Definition DefaultRootCertFilePath : string := "./etc/certs/root-cert.pem".
Definition SystemRootCerts : string := "SYSTEM".
Definition RootCertReqResourceName : string := "ROOTCA".
Definition WorkloadKeyCertResourceName : string := "default".
Definition GCE : string := "GoogleComputeEngine".
Definition Mock : string := "Mock".
Definition GoogleCAProvider : string := "GoogleCA".
Definition GoogleCASProvider : string := "GoogleCAS".

Definition BearerTokenPrefix : string := "Bearer ".
Definition K8sTokenPrefix : string := "Istio ".
Definition CertSigner : string := "CertSigner".

Definition authorizationMeta : string := "authorization".

(** ** istio.io/pkg/env: string variables read from the process environment *)

Module env.

(** The process environment, from variable names to their values. *)
Abbreviation Environ := (gmap string string).

Record StringVar := {
  Name : string;
  DefaultValue : string;
  Description : string
}.

(** func RegisterStringVar(name, defaultValue, description string) StringVar *)
Definition RegisterStringVar (name defaultValue description : string)
  : StringVar :=
  {| Name := name; DefaultValue := defaultValue; Description := description |}.

(** func (v StringVar) Get() string: the value of the variable when it is
    set, also when it is set to the empty string, and the default value
    otherwise. *)
Definition StringVar_Get (environ : Environ) (v : StringVar) : string :=
  match environ !! Name v with
  | Some result => result
  | None => DefaultValue v
  end.

End env.

(** TokenAudiences, as computed from the environment when the package is
    initialised. *)
Definition TokenAudiences (environ : gmap string string) : list string :=
  strings.Split
    (env.StringVar_Get environ
       (env.RegisterStringVar "TOKEN_AUDIENCES" "istio-ca"
          ("A list of comma separated audiences to check in the JWT token before issuing a certificate. "
           +:+ "The token is accepted if it matches with one of the audiences")))
    ",".

(** ** Package security: data model *)

(** time.Time as nanoseconds since the epoch, time.Duration as a count of
    nanoseconds. *)
Abbreviation Time := Z (only parsing).
Abbreviation Duration := Z (only parsing).

Definition Nanosecond : Z := 1.
Definition Second : Z := 1000000000 * Nanosecond.
Definition Minute : Z := 60 * Second.
Definition Hour : Z := 60 * Minute.

Record SecretItem := {
  CertificateChain : string;
  PrivateKey : string;
  RootCert : string;
  ResourceName : string;
  CreatedTime : Time;
  ExpireTime : Time
}.

(** The fields of [Options] that govern the secret's lifetime. *)
Record Options := {
  TrustDomain : string;
  SecretTTL : Duration;
  SecretRotationGracePeriodRatio : Q
}.

Inductive AuthSource := AuthSourceClientCertificate | AuthSourceIDToken.

(** AuthSource is an int enumerated with iota. *)
Definition AuthSource_value (a : AuthSource) : Z :=
  match a with
  | AuthSourceClientCertificate => 0
  | AuthSourceIDToken => 1
  end.

Record Caller := {
  Caller_AuthSource : AuthSource;
  Identities : list string
}.

(** ** Package security: token extraction *)

(** An error built by fmt.Errorf is its message. *)
Definition error := string.

(** The nil error. *)
Definition nil_error : option error := None.

Definition Errorf (msg : string) : option error := Some msg.

(** The loop of ExtractBearerToken over the values of the authorization
    entry: the first value with the bearer prefix is returned stripped. *)
Fixpoint firstBearer (authHeader : list string) : option string :=
  match authHeader with
  | [] => None
  | value :: rest =>
      if strings.HasPrefix value BearerTokenPrefix
      then Some (strings.TrimPrefix value BearerTokenPrefix)
      else firstBearer rest
  end.

Definition ExtractBearerToken (ctx : context.Context) : string * option error :=
  match FromIncomingContext ctx with
  | None => ("", Errorf "no metadata is attached")
  | Some md =>
      match md !! authorizationMeta with
      | None => ("", Errorf "no HTTP authorization header exists")
      | Some authHeader =>
          match firstBearer authHeader with
          | Some token => (token, nil_error)
          | None =>
              ("", Errorf "no bearer token exists in HTTP authorization header")
          end
      end
  end.

Definition ExtractRequestToken (req : http.Request) : string * option error :=
  let value := http.Header_Get (http.Header_of req) authorizationMeta in
  if String.eqb value "" then
    ("", Errorf "no HTTP authorization header exists")
  else if strings.HasPrefix value BearerTokenPrefix then
    (strings.TrimPrefix value BearerTokenPrefix, nil_error)
  else if strings.HasPrefix value K8sTokenPrefix then
    (strings.TrimPrefix value K8sTokenPrefix, nil_error)
  else
    ("", Errorf "no bearer token exists in HTTP authorization header").

(** ** What it means for a value to carry a prefix *)

(** [starts_with p v]: the bytes of [v] begin with the bytes of [p]. *)
Definition starts_with (p v : string) : Prop := exists t, v = p +:+ t.

(** ** Error messages *)

Definition errNoMetadata : error := "no metadata is attached".
Definition errNoHeader : error := "no HTTP authorization header exists".
Definition errNoBearer : error :=
  "no bearer token exists in HTTP authorization header".

(** The three situations in which the metadata of a context yields no
    bearer token. *)
Inductive no_bearer_token (ctx : context.Context) : error -> Prop :=
| nbt_no_metadata :
    FromIncomingContext ctx = None ->
    no_bearer_token ctx errNoMetadata
| nbt_no_key (md : gmap string (list string)) :
    FromIncomingContext ctx = Some md ->
    md !! "authorization" = None ->
    no_bearer_token ctx errNoHeader
| nbt_no_prefixed (md : gmap string (list string)) (vs : list string) :
    FromIncomingContext ctx = Some md ->
    md !! "authorization" = Some vs ->
    Forall (fun v => ~ starts_with "Bearer " v) vs ->
    no_bearer_token ctx errNoBearer.

(** The two situations in which the authorization header value [value] of a
    request yields no token. *)
Inductive no_request_token (value : string) : error -> Prop :=
| nrt_empty :
    value = "" ->
    no_request_token value errNoHeader
| nrt_no_prefix :
    value <> "" ->
    ~ starts_with "Bearer " value ->
    ~ starts_with "Istio " value ->
    no_request_token value errNoBearer.

(** The value ExtractRequestToken reads from a request. *)
Definition authorization_value (req : http.Request) : string :=
  http.Header_Get (http.Header_of req) "authorization".

(** ** Case folding, to state what the extractors do not do *)

(** An ASCII upper-case letter is mapped to its lower-case letter, any
    other byte to itself. *)
Definition lower_byte (c : ascii) : ascii :=
  if textproto.byte_in "A" "Z" c
  then ascii_of_nat (nat_of_ascii c + 32)
  else c.

Fixpoint to_lower (s : string) : string :=
  match s with
  | EmptyString => EmptyString
  | String c rest => String (lower_byte c) (to_lower rest)
  end.

(** [a] is [b] up to the case of its letters, and is not [b]. *)
Definition differs_only_in_case (a b : string) : Prop :=
  a <> b /\ to_lower a = to_lower b.

(** ** Rotation schedule of a cached secret *)

Section Rotation.

Local Open Scope Q_scope.

Variable opts : Options.
Variable item : SecretItem.

(** The lifetime of the certificate: from its creation to its expiry. *)
Definition lifetime : Q :=
  inject_Z (ExpireTime item) - inject_Z (CreatedTime item).

(** Modelled from the spec: the rotation scheduler of the Secret Lifecycle
    Manager is not in this package, which only declares the ratio it reads.
    The grace period is the fraction [SecretRotationGracePeriodRatio] of
    the certificate lifetime ("the ratio of cert lifetime to refresh a
    cert"), taken over exact rationals. *)
Definition gracePeriod : Q :=
  SecretRotationGracePeriodRatio opts * lifetime.

(** Modelled from the spec: the proactive-rotation deadline is the expiry
    with the grace period subtracted from it ("fraction of total TTL
    subtracted from expiry to determine the proactive-rotation
    deadline"). *)
Definition rotationDeadline : Q :=
  inject_Z (ExpireTime item) - gracePeriod.

(** Modelled from the spec: the time from the creation of the secret to
    the moment its rotation is triggered. *)
Definition timeToRotation : Q :=
  rotationDeadline - inject_Z (CreatedTime item).

End Rotation.

(** ** Occurrences and joining, to state what splitting does *)

(** [contains sub s]: the bytes of [sub] occur somewhere in [s]. *)
Definition contains (sub s : string) : Prop :=
  exists a b, s = a +:+ sub +:+ b.

(** The elements written one after the other with [sep] between them. *)
Fixpoint join_with (sep : string) (elems : list string) : string :=
  match elems with
  | [] => ""
  | [a] => a
  | a :: rest => a +:+ sep +:+ join_with sep rest
  end.

(** * Properties *)

(** ** Sanity checks on concrete inputs *)

Example canonical_authorization :
  textproto.CanonicalMIMEHeaderKey "authorization" = "Authorization".
Proof. reflexivity. Qed.

Example canonical_mixed :
  textproto.CanonicalMIMEHeaderKey "x-fORWARDED-for" = "X-Forwarded-For".
Proof. reflexivity. Qed.

Example canonical_invalid :
  textproto.CanonicalMIMEHeaderKey "bad key" = "bad key".
Proof. reflexivity. Qed.

Example bearer_abc123 :
  ExtractBearerToken
    (NewIncomingContext context.Background
       {[ "authorization" := ["Bearer abc123"] ]})
  = ("abc123", nil_error).
Proof. vm_compute. reflexivity. Qed.

Example request_istio_xyz :
  ExtractRequestToken
    {| http.Header_of := {[ "Authorization" := ["Istio xyz"] ]} |}
  = ("xyz", nil_error).
Proof. vm_compute. reflexivity. Qed.

Section GoStrings.

Lemma substring_whole (s : string) :
  String.substring 0 (String.length s) s = s.
Proof. induction s as [|c s IH]; simpl; [reflexivity | now rewrite IH]. Qed.

Lemma slice_to_app (p t : string) :
  strings.slice_to (p +:+ t) (String.length p) = p.
Proof.
  unfold strings.slice_to.
  induction p as [|c p IH]; simpl.
  - now destruct t.
  - now rewrite IH.
Qed.

Lemma slice_from_app (p t : string) :
  strings.slice_from (p +:+ t) (String.length p) = t.
Proof.
  unfold strings.slice_from.
  induction p as [|c p IH]; simpl.
  - rewrite Nat.sub_0_r. apply substring_whole.
  - exact IH.
Qed.

Lemma slice_split (s : string) (n : nat) :
  (n <= String.length s)%nat ->
  s = strings.slice_to s n +:+ strings.slice_from s n.
Proof.
  unfold strings.slice_to, strings.slice_from.
  revert n. induction s as [|c s IH]; intros n Hn; simpl in *.
  - destruct n; [reflexivity | lia].
  - destruct n as [|n]; simpl.
    + now rewrite substring_whole.
    + rewrite (IH n) at 1 by lia. reflexivity.
Qed.

Lemma length_append (p t : string) :
  String.length (p +:+ t) = (String.length p + String.length t)%nat.
Proof. induction p as [|c p IH]; simpl; [reflexivity | now rewrite IH]. Qed.

(** HasPrefix decides [starts_with]. *)
Lemma HasPrefix_true (s p : string) :
  strings.HasPrefix s p = true <-> starts_with p s.
Proof.
  unfold strings.HasPrefix, starts_with. split.
  - intros H. apply andb_true_iff in H as [Hlen Heq].
    apply Nat.leb_le in Hlen. apply String.eqb_eq in Heq.
    exists (strings.slice_from s (String.length p)).
    rewrite <- Heq at 1. now apply slice_split.
  - intros [t ->]. apply andb_true_iff. split.
    + apply Nat.leb_le. rewrite length_append. lia.
    + rewrite slice_to_app. apply String.eqb_refl.
Qed.

Lemma HasPrefix_false (s p : string) :
  strings.HasPrefix s p = false <-> ~ starts_with p s.
Proof.
  rewrite <- HasPrefix_true. destruct (strings.HasPrefix s p); split;
    intros H; try reflexivity; try discriminate; try (intros ?; discriminate).
  exfalso. now apply H.
Qed.

Lemma HasPrefix_app (p t : string) : strings.HasPrefix (p +:+ t) p = true.
Proof. apply HasPrefix_true. now exists t. Qed.

(** On a value that has the prefix, TrimPrefix returns what follows it. *)
Lemma TrimPrefix_app (p t : string) : strings.TrimPrefix (p +:+ t) p = t.
Proof.
  unfold strings.TrimPrefix. rewrite HasPrefix_app. apply slice_from_app.
Qed.

Lemma append_inj_l (p t t' : string) : p +:+ t = p +:+ t' -> t = t'.
Proof. induction p as [|c p IH]; simpl; intros H; [exact H | injection H; auto]. Qed.

End GoStrings.

(** The loop returns [Some] exactly on the first prefixed value. *)
Lemma firstBearer_first (before after : list string) (token : string) :
  Forall (fun v => ~ starts_with BearerTokenPrefix v) before ->
  firstBearer (before ++ (BearerTokenPrefix +:+ token) :: after) = Some token.
Proof.
  induction 1 as [|v before Hv _ IH]; simpl.
  - now rewrite HasPrefix_app, TrimPrefix_app.
  - apply HasPrefix_false in Hv. now rewrite Hv.
Qed.

Lemma firstBearer_none (authHeader : list string) :
  firstBearer authHeader = None
  <-> Forall (fun v => ~ starts_with BearerTokenPrefix v) authHeader.
Proof.
  induction authHeader as [|v vs IH]; simpl.
  - split; [constructor | reflexivity].
  - destruct (strings.HasPrefix v BearerTokenPrefix) eqn:E.
    + split; [discriminate |].
      intros H. inversion H as [|? ? Hv _]; subst.
      apply HasPrefix_false in Hv. congruence.
    + rewrite IH. split.
      * intros H. constructor; [now apply HasPrefix_false | exact H].
      * intros H. now inversion H.
Qed.

Lemma ExtractBearerToken_inv (ctx : context.Context) :
  (exists e, ExtractBearerToken ctx = ("", Some e) /\ no_bearer_token ctx e)
  \/ (exists md before token after,
        FromIncomingContext ctx = Some md
        /\ md !! "authorization"
           = Some (before ++ (("Bearer " +:+ token) :: after))
        /\ Forall (fun v => ~ starts_with "Bearer " v) before
        /\ ExtractBearerToken ctx = (token, None)).
Proof.
  unfold ExtractBearerToken.
  destruct (FromIncomingContext ctx) as [md|] eqn:Hmd.
  2:{ left. eexists. split; [reflexivity | now constructor]. }
  change authorizationMeta with "authorization".
  destruct (md !! "authorization") as [vs|] eqn:Hvs.
  2:{ left. eexists. split; [reflexivity | now apply (nbt_no_key _ md)]. }
  destruct (firstBearer vs) as [token|] eqn:Hfb.
  2:{ left. eexists. split; [reflexivity |].
      apply (nbt_no_prefixed _ md vs); auto. now apply firstBearer_none. }
  right. exists md.
  assert (exists before after,
             vs = before ++ ("Bearer " +:+ token) :: after
             /\ Forall (fun v => ~ starts_with "Bearer " v) before)
    as (before & after & -> & Hb).
  { clear Hvs. induction vs as [|v vs IH]; simpl in Hfb; [discriminate |].
    destruct (strings.HasPrefix v BearerTokenPrefix) eqn:E.
    - apply HasPrefix_true in E as [t ->].
      rewrite TrimPrefix_app in Hfb. injection Hfb as <-.
      exists [], vs. split; [reflexivity | constructor].
    - destruct (IH Hfb) as (before & after & -> & Hb).
      exists (v :: before), after. split; [reflexivity |].
      constructor; [now apply HasPrefix_false | exact Hb]. }
  exists before, token, after. auto.
Qed.

(** C2. When the incoming metadata of the context has an "authorization"
    entry, the result is the first value of that entry that starts with
    "Bearer ", with the prefix removed, and a nil error: every value before
    it lacks the prefix, whatever follows it is ignored.  In particular
    authorization: ["Bearer abc123"] yields "abc123". *)
Theorem ExtractBearerToken_first_prefixed
    (ctx : context.Context) (md : gmap string (list string))
    (before after : list string) (token : string) :
  FromIncomingContext ctx = Some md ->
  md !! "authorization" = Some (before ++ ("Bearer " +:+ token) :: after) ->
  Forall (fun v => ~ starts_with "Bearer " v) before ->
  ExtractBearerToken ctx = (token, None)
  /\ ExtractBearerToken
       (NewIncomingContext context.Background
          {[ "authorization" := ["Bearer abc123"] ]})
     = ("abc123", None).
Proof.
  intros Hmd Hvs Hbefore. split; [| vm_compute; reflexivity].
  unfold ExtractBearerToken. rewrite Hmd.
  change authorizationMeta with "authorization". rewrite Hvs.
  pose proof (firstBearer_first before after token Hbefore) as Hfirst.
  unfold BearerTokenPrefix in Hfirst. now rewrite Hfirst.
Qed.

Lemma ExtractBearerToken_first_prefixed_witness :
  ExtractBearerToken
    (NewIncomingContext context.Background
       {[ "authorization" := ["Basic dXNlcg=="; "Bearer abc123"; "Bearer zzz"] ]})
  = ("abc123", None).
Proof.
  apply (ExtractBearerToken_first_prefixed
           (NewIncomingContext context.Background
              {[ "authorization" :=
                   ["Basic dXNlcg=="; "Bearer abc123"; "Bearer zzz"] ]})
           {[ "authorization" :=
                ["Basic dXNlcg=="; "Bearer abc123"; "Bearer zzz"] ]}
           ["Basic dXNlcg=="] ["Bearer zzz"] "abc123").
  - reflexivity.
  - vm_compute. reflexivity.
  - constructor; [| constructor]. intros [t Ht]. discriminate Ht.
Defined.

(** C3. ExtractBearerToken returns an error exactly when the context yields
    no bearer token, and the message names the case: "no metadata is
    attached" when the context has no incoming metadata, "no HTTP
    authorization header exists" when the metadata has no "authorization"
    entry, "no bearer token exists in HTTP authorization header" when the
    entry has no value starting with "Bearer ".  The token returned with an
    error is empty. *)
Theorem ExtractBearerToken_errors (ctx : context.Context) :
  (FromIncomingContext ctx = None ->
   ExtractBearerToken ctx = ("", Some "no metadata is attached"))
  /\ (forall md : gmap string (list string),
        FromIncomingContext ctx = Some md ->
        md !! "authorization" = None ->
        ExtractBearerToken ctx = ("", Some "no HTTP authorization header exists"))
  /\ (forall (md : gmap string (list string)) (vs : list string),
        FromIncomingContext ctx = Some md ->
        md !! "authorization" = Some vs ->
        Forall (fun v => ~ starts_with "Bearer " v) vs ->
        ExtractBearerToken ctx
        = ("", Some "no bearer token exists in HTTP authorization header"))
  /\ (forall e : error,
        snd (ExtractBearerToken ctx) = Some e <-> no_bearer_token ctx e)
  /\ (snd (ExtractBearerToken ctx) <> None -> fst (ExtractBearerToken ctx) = "").
Proof.
  assert (Hcases : forall e, no_bearer_token ctx e ->
                             ExtractBearerToken ctx = ("", Some e)).
  { intros e He. unfold ExtractBearerToken.
    change authorizationMeta with "authorization".
    destruct He as [Hmd | md Hmd Hkey | md vs Hmd Hkey Hvs]; rewrite Hmd.
    - reflexivity.
    - now rewrite Hkey.
    - rewrite Hkey. apply firstBearer_none in Hvs. now rewrite Hvs. }
  repeat split.
  - intros Hmd. apply (Hcases errNoMetadata). now constructor.
  - intros md Hmd Hkey. apply (Hcases errNoHeader). now apply (nbt_no_key _ md).
  - intros md vs Hmd Hkey Hvs. apply (Hcases errNoBearer).
    now apply (nbt_no_prefixed _ md vs).
  - intros He.
    destruct (ExtractBearerToken_inv ctx)
      as [(e' & Hr & Hn) | (md & b & t & a & _ & _ & _ & Hr)];
      rewrite Hr in He; simpl in He; [| discriminate].
    now injection He as <-.
  - intros He. now rewrite (Hcases e He).
  - intros He.
    destruct (ExtractBearerToken_inv ctx)
      as [(e' & Hr & _) | (md & b & t & a & _ & _ & _ & Hr)];
      rewrite Hr in *; simpl in *; [reflexivity | congruence].
Qed.

Lemma ExtractBearerToken_errors_witness :
  ExtractBearerToken context.Background = ("", Some "no metadata is attached")
  /\ ExtractBearerToken (NewIncomingContext context.Background ∅)
     = ("", Some "no HTTP authorization header exists")
  /\ ExtractBearerToken
       (NewIncomingContext context.Background
          {[ "authorization" := ["Basic dXNlcg=="] ]})
     = ("", Some "no bearer token exists in HTTP authorization header").
Proof.
  split; [| split].
  - apply (ExtractBearerToken_errors context.Background). reflexivity.
  - apply (proj1 (proj2 (ExtractBearerToken_errors
                           (NewIncomingContext context.Background ∅))) ∅);
      reflexivity.
  - apply (proj1 (proj2 (proj2 (ExtractBearerToken_errors
             (NewIncomingContext context.Background
                {[ "authorization" := ["Basic dXNlcg=="] ]}))))
             {[ "authorization" := ["Basic dXNlcg=="] ]} ["Basic dXNlcg=="]).
    + reflexivity.
    + vm_compute. reflexivity.
    + constructor; [| constructor]. intros [t Ht]. discriminate Ht.
Defined.

Lemma ExtractRequestToken_inv (req : http.Request) :
  (exists e, ExtractRequestToken req = ("", Some e)
             /\ no_request_token (authorization_value req) e)
  \/ (exists token,
        (authorization_value req = "Bearer " +:+ token
         \/ authorization_value req = "Istio " +:+ token)
        /\ ExtractRequestToken req = (token, None)).
Proof.
  unfold ExtractRequestToken, authorization_value.
  change authorizationMeta with "authorization".
  set (value := http.Header_Get (http.Header_of req) "authorization").
  destruct (String.eqb value "") eqn:Hempty.
  { apply String.eqb_eq in Hempty. left. eexists.
    split; [reflexivity | now constructor]. }
  apply String.eqb_neq in Hempty.
  destruct (strings.HasPrefix value BearerTokenPrefix) eqn:Hb.
  { apply HasPrefix_true in Hb as [t Ht]. right. exists t. rewrite Ht.
    split; [now left | now rewrite TrimPrefix_app]. }
  destruct (strings.HasPrefix value K8sTokenPrefix) eqn:Hk.
  { apply HasPrefix_true in Hk as [t Ht]. right. exists t. rewrite Ht.
    split; [now right | now rewrite TrimPrefix_app]. }
  apply HasPrefix_false in Hb, Hk. left. eexists.
  split; [reflexivity | now constructor].
Qed.

(** C4. When the authorization header value of the request starts with
    "Bearer " or with "Istio ", ExtractRequestToken returns the rest of the
    value after that prefix and a nil error: "Authorization: Istio xyz"
    gives "xyz" and "Authorization: Bearer abc" gives "abc". *)
Theorem ExtractRequestToken_strips_prefix (req : http.Request) (token : string) :
  authorization_value req = "Bearer " +:+ token
  \/ authorization_value req = "Istio " +:+ token ->
  ExtractRequestToken req = (token, None)
  /\ ExtractRequestToken
       {| http.Header_of := {[ "Authorization" := ["Istio xyz"] ]} |}
     = ("xyz", None)
  /\ ExtractRequestToken
       {| http.Header_of := {[ "Authorization" := ["Bearer abc"] ]} |}
     = ("abc", None).
Proof.
  intros Hvalue. split; [| split; vm_compute; reflexivity].
  destruct (ExtractRequestToken_inv req)
    as [(e & _ & Hn) | (token' & Hvalue' & Hr)].
  - exfalso. destruct Hn as [Hempty | _ Hb Hk].
    + rewrite Hempty in Hvalue. destruct Hvalue; discriminate.
    + destruct Hvalue as [H | H]; [apply Hb | apply Hk]; now exists token.
  - rewrite Hr. f_equal.
    destruct Hvalue as [H | H], Hvalue' as [H' | H']; rewrite H in H';
      try discriminate H'; symmetry; eapply append_inj_l; exact H'.
Qed.

Lemma ExtractRequestToken_strips_prefix_witness :
  ExtractRequestToken
    {| http.Header_of :=
         {[ "Authorization" := ["Istio eyJhbGciOi"; "Bearer ignored"] ]} |}
  = ("eyJhbGciOi", None).
Proof.
  apply (ExtractRequestToken_strips_prefix
           {| http.Header_of :=
                {[ "Authorization" := ["Istio eyJhbGciOi"; "Bearer ignored"] ]} |}
           "eyJhbGciOi").
  right. vm_compute. reflexivity.
Defined.

(** C5. ExtractRequestToken returns an error exactly when the authorization
    header value is empty, with "no HTTP authorization header exists", or is
    not empty and starts with neither "Bearer " nor "Istio ", with "no
    bearer token exists in HTTP authorization header".  The token returned
    with an error is empty. *)
Theorem ExtractRequestToken_errors (req : http.Request) :
  (authorization_value req = "" ->
   ExtractRequestToken req = ("", Some "no HTTP authorization header exists"))
  /\ (authorization_value req <> "" ->
      ~ starts_with "Bearer " (authorization_value req) ->
      ~ starts_with "Istio " (authorization_value req) ->
      ExtractRequestToken req
      = ("", Some "no bearer token exists in HTTP authorization header"))
  /\ (forall e : error,
        snd (ExtractRequestToken req) = Some e
        <-> no_request_token (authorization_value req) e)
  /\ (snd (ExtractRequestToken req) <> None -> fst (ExtractRequestToken req) = "").
Proof.
  assert (Hcases : forall e, no_request_token (authorization_value req) e ->
                             ExtractRequestToken req = ("", Some e)).
  { intros e He.
    destruct (ExtractRequestToken_inv req)
      as [(e' & Hr & Hn) | (token & Hvalue & _)].
    - rewrite Hr. do 2 f_equal.
      destruct He as [He | He Hb Hk], Hn as [Hn | Hn Hb' Hk'];
        reflexivity || contradiction.
    - exfalso. destruct He as [He | He Hb Hk].
      + rewrite He in Hvalue. destruct Hvalue; discriminate.
      + destruct Hvalue as [H | H]; [apply Hb | apply Hk]; now exists token. }
  repeat split.
  - intros Hempty. apply (Hcases errNoHeader). now constructor.
  - intros Hne Hb Hk. apply (Hcases errNoBearer). now constructor.
  - intros He.
    destruct (ExtractRequestToken_inv req)
      as [(e' & Hr & Hn) | (token & _ & Hr)];
      rewrite Hr in He; simpl in He; [| discriminate].
    now injection He as <-.
  - intros He. now rewrite (Hcases e He).
  - intros He.
    destruct (ExtractRequestToken_inv req)
      as [(e' & Hr & _) | (token & _ & Hr)];
      rewrite Hr in *; simpl in *; [reflexivity | congruence].
Qed.

Lemma ExtractRequestToken_errors_witness :
  ExtractRequestToken {| http.Header_of := ∅ |}
  = ("", Some "no HTTP authorization header exists")
  /\ ExtractRequestToken
       {| http.Header_of := {[ "Authorization" := ["Basic dXNlcg=="] ]} |}
     = ("", Some "no bearer token exists in HTTP authorization header").
Proof.
  split.
  - apply (ExtractRequestToken_errors {| http.Header_of := ∅ |}).
    reflexivity.
  - apply (proj1 (proj2 (ExtractRequestToken_errors
             {| http.Header_of := {[ "Authorization" := ["Basic dXNlcg=="] ]} |}))).
    + vm_compute. discriminate.
    + vm_compute. intros [t Ht]. discriminate Ht.
    + vm_compute. intros [t Ht]. discriminate Ht.
Defined.

Example differs_bearer : differs_only_in_case "bearer " BearerTokenPrefix.
Proof. split; [discriminate | reflexivity]. Qed.

Example differs_ISTIO : differs_only_in_case "ISTIO " K8sTokenPrefix.
Proof. split; [discriminate | reflexivity]. Qed.

Lemma to_lower_cons_inv (s : string) (c : ascii) (r : string) :
  to_lower s = String c r ->
  exists c' s', s = String c' s' /\ lower_byte c' = c /\ to_lower s' = r.
Proof.
  destruct s as [|c' s']; simpl; intros H; [discriminate |].
  injection H as Hc Hr. now exists c', s'.
Qed.

Lemma to_lower_nil_inv (s : string) : to_lower s = "" -> s = "".
Proof. destruct s; [reflexivity | discriminate]. Qed.

Ltac peel_variant H :=
  repeat
    (let c := fresh "c" in
     let s := fresh "s" in
     let Hc := fresh "Hc" in
     apply to_lower_cons_inv in H as (c & s & -> & Hc & H));
  apply to_lower_nil_inv in H; subst.

(** A value led by a case variant of one of the two schemes carries neither
    prefix. *)
Lemma case_variant_unprefixed (scheme variant rest : string) :
  scheme = BearerTokenPrefix \/ scheme = K8sTokenPrefix ->
  differs_only_in_case variant scheme ->
  variant +:+ rest <> ""
  /\ ~ starts_with "Bearer " (variant +:+ rest)
  /\ ~ starts_with "Istio " (variant +:+ rest).
Proof.
  intros Hscheme [Hne Hlow].
  destruct Hscheme as [-> | ->]; vm_compute in Hlow; peel_variant Hlow;
    (split; [discriminate |]); split; intros [t Ht]; simpl in Ht;
    injection Ht; intros; subst; try (now apply Hne); discriminate.
Qed.

(** C9. Prefix matching is case-sensitive in both extractors.  When the
    authorization value starts with a spelling of "Bearer " or of "Istio "
    that differs from it only in the case of its letters (such as
    "bearer abc" or "istio xyz"), ExtractRequestToken and ExtractBearerToken
    return an error and an empty token: the prefix is not stripped. *)
Theorem prefix_match_is_case_sensitive (scheme variant rest : string) :
  scheme = BearerTokenPrefix \/ scheme = K8sTokenPrefix ->
  differs_only_in_case variant scheme ->
  (forall req : http.Request,
      authorization_value req = variant +:+ rest ->
      ExtractRequestToken req
      = ("", Some "no bearer token exists in HTTP authorization header"))
  /\ (forall (ctx : context.Context) (md : gmap string (list string)),
        FromIncomingContext ctx = Some md ->
        md !! "authorization" = Some [variant +:+ rest] ->
        ExtractBearerToken ctx
        = ("", Some "no bearer token exists in HTTP authorization header")).
Proof.
  intros Hscheme Hvariant.
  destruct (case_variant_unprefixed scheme variant rest Hscheme Hvariant)
    as (Hne & Hb & Hk).
  split.
  - intros req Hvalue. rewrite <- Hvalue in Hne, Hb, Hk.
    destruct (ExtractRequestToken_inv req)
      as [(e & Hr & Hn) | (token & Hvalue' & _)].
    + rewrite Hr. destruct Hn; [contradiction | reflexivity].
    + exfalso. destruct Hvalue' as [H | H]; [apply Hb | apply Hk];
        now exists token.
  - intros ctx md Hmd Hkey. unfold ExtractBearerToken. rewrite Hmd.
    change authorizationMeta with "authorization". rewrite Hkey.
    simpl. apply HasPrefix_false in Hb. unfold BearerTokenPrefix.
    now rewrite Hb.
Qed.

Lemma prefix_match_is_case_sensitive_witness :
  ExtractRequestToken
    {| http.Header_of := {[ "Authorization" := ["bearer abc"] ]} |}
  = ("", Some "no bearer token exists in HTTP authorization header")
  /\ ExtractBearerToken
       (NewIncomingContext context.Background
          {[ "authorization" := ["istio xyz"] ]})
     = ("", Some "no bearer token exists in HTTP authorization header").
Proof.
  assert (Hb : differs_only_in_case "bearer " BearerTokenPrefix)
    by (split; [discriminate | reflexivity]).
  assert (Hk : differs_only_in_case "istio " K8sTokenPrefix)
    by (split; [discriminate | reflexivity]).
  pose proof (proj1 (prefix_match_is_case_sensitive
                       BearerTokenPrefix "bearer " "abc"
                       (or_introl eq_refl) Hb)) as Hreq.
  pose proof (proj2 (prefix_match_is_case_sensitive
                       K8sTokenPrefix "istio " "xyz"
                       (or_intror eq_refl) Hk)) as Hctx.
  split.
  - apply Hreq. vm_compute. reflexivity.
  - apply (Hctx (NewIncomingContext context.Background
                   {[ "authorization" := ["istio xyz"] ]})
                {[ "authorization" := ["istio xyz"] ]}).
    + reflexivity.
    + vm_compute. reflexivity.
Defined.

(** C10. A value that is exactly the prefix is accepted: the header values
    "Bearer " and "Istio " give ExtractRequestToken the empty token with a
    nil error, and the metadata value "Bearer " gives ExtractBearerToken the
    empty token with a nil error. *)
Theorem bare_prefix_is_accepted :
  ExtractRequestToken
    {| http.Header_of := {[ "Authorization" := [BearerTokenPrefix] ]} |}
  = ("", nil_error)
  /\ ExtractRequestToken
       {| http.Header_of := {[ "Authorization" := [K8sTokenPrefix] ]} |}
     = ("", nil_error)
  /\ ExtractBearerToken
       (NewIncomingContext context.Background
          {[ authorizationMeta := [BearerTokenPrefix] ]})
     = ("", nil_error)
  /\ BearerTokenPrefix = "Bearer " /\ K8sTokenPrefix = "Istio ".
Proof. repeat split; vm_compute; reflexivity. Qed.

(** C6. The reserved resource names are the exact strings "ROOTCA", for the
    root certificate request, and "default", for the workload key and
    certificate; no other spelling is equal to them. *)
Theorem reserved_resource_names :
  RootCertReqResourceName = "ROOTCA"
  /\ WorkloadKeyCertResourceName = "default"
  /\ RootCertReqResourceName <> WorkloadKeyCertResourceName
  /\ (forall name : string,
        differs_only_in_case name RootCertReqResourceName
        \/ differs_only_in_case name WorkloadKeyCertResourceName ->
        String.eqb name RootCertReqResourceName = false
        /\ String.eqb name WorkloadKeyCertResourceName = false).
Proof.
  split; [reflexivity |]. split; [reflexivity |]. split; [discriminate |].
  intros name [[Hne Hlow] | [Hne Hlow]]; split; apply String.eqb_neq;
    try exact Hne; intros ->; vm_compute in Hlow; discriminate Hlow.
Qed.

Lemma reserved_resource_names_witness :
  String.eqb "rootca" RootCertReqResourceName = false
  /\ String.eqb "Default" WorkloadKeyCertResourceName = false.
Proof.
  assert (Hr : differs_only_in_case "rootca" RootCertReqResourceName)
    by (split; [discriminate | reflexivity]).
  assert (Hw : differs_only_in_case "Default" WorkloadKeyCertResourceName)
    by (split; [discriminate | reflexivity]).
  pose proof (proj2 (proj2 (proj2 reserved_resource_names))) as Hnames.
  split.
  - apply (Hnames "rootca"). left. exact Hr.
  - apply (Hnames "Default"). right. exact Hw.
Defined.

Example rotation_deadline_one_hour :
  Qeq (rotationDeadline
         {| TrustDomain := "cluster.local"; SecretTTL := Hour;
            SecretRotationGracePeriodRatio := 1 # 10 |}
         {| CertificateChain := ""; PrivateKey := ""; RootCert := "";
            ResourceName := WorkloadKeyCertResourceName;
            CreatedTime := 0; ExpireTime := Hour |})
      (inject_Z (54 * Minute)).
Proof. vm_compute. reflexivity. Qed.

(** C8. The time from the creation of a cached secret to the start of its
    proactive rotation is its lifetime, ExpireTime - CreatedTime, multiplied
    by 1 - SecretRotationGracePeriodRatio.  With a ratio of 0.10 and a
    lifetime of one hour, rotation starts 6 minutes before the expiry. *)
Theorem time_to_rotation (opts : Options) (item : SecretItem) :
  Qeq (timeToRotation opts item)
      (inject_Z (ExpireTime item - CreatedTime item)
       * (1 - SecretRotationGracePeriodRatio opts))%Q
  /\ (Qeq (SecretRotationGracePeriodRatio opts) (1 # 10) ->
      (ExpireTime item - CreatedTime item = 1 * Hour)%Z ->
      Qeq (inject_Z (ExpireTime item) - rotationDeadline opts item)%Q
          (inject_Z (6 * Minute))).
Proof.
  unfold timeToRotation, rotationDeadline, gracePeriod, lifetime. split.
  - unfold Z.sub. rewrite inject_Z_plus, inject_Z_opp. ring.
  - intros Hratio Hlife.
    assert (HE : ExpireTime item = (CreatedTime item + 1 * Hour)%Z) by lia.
    rewrite HE, Hratio, inject_Z_plus.
    ring_simplify. vm_compute. reflexivity.
Qed.

Lemma time_to_rotation_witness :
  Qeq (inject_Z Hour
       - rotationDeadline
           {| TrustDomain := "cluster.local"; SecretTTL := Hour;
              SecretRotationGracePeriodRatio := 1 # 10 |}
           {| CertificateChain := ""; PrivateKey := ""; RootCert := "";
              ResourceName := WorkloadKeyCertResourceName;
              CreatedTime := 0; ExpireTime := Hour |})%Q
      (inject_Z (6 * Minute)).
Proof.
  apply (proj2 (time_to_rotation
           {| TrustDomain := "cluster.local"; SecretTTL := Hour;
              SecretRotationGracePeriodRatio := 1 # 10 |}
           {| CertificateChain := ""; PrivateKey := ""; RootCert := "";
              ResourceName := WorkloadKeyCertResourceName;
              CreatedTime := 0; ExpireTime := Hour |})).
  - simpl. reflexivity.
  - vm_compute. reflexivity.
Defined.

(** * Further properties of the token extractors *)

(** The loop over a concatenation: the values of the first list are tried
    first, those of the second only when none of the first is accepted. *)
Lemma firstBearer_app (vs1 vs2 : list string) :
  firstBearer (vs1 ++ vs2)
  = match firstBearer vs1 with
    | Some token => Some token
    | None => firstBearer vs2
    end.
Proof.
  induction vs1 as [|v vs1 IH]; simpl; [reflexivity |].
  now destruct (strings.HasPrefix v BearerTokenPrefix).
Qed.

Lemma Header_Get_authorization (h : gmap string (list string)) :
  http.Header_Get h authorizationMeta
  = match h !! "Authorization" with
    | Some (v :: _) => v
    | _ => ""
    end.
Proof. reflexivity. Qed.

(** X1. A token returned by ExtractBearerToken without an error was
    presented: the context carries metadata whose "authorization" entry
    holds the value "Bearer " followed by exactly that token, and no value
    before it starts with "Bearer ". *)
Theorem ExtractBearerToken_sound (ctx : context.Context) (token : string) :
  ExtractBearerToken ctx = (token, None) ->
  exists (md : gmap string (list string)) (before after : list string),
    FromIncomingContext ctx = Some md
    /\ md !! "authorization" = Some (before ++ ("Bearer " +:+ token) :: after)
    /\ Forall (fun v => ~ starts_with "Bearer " v) before.
Proof.
  intros Hr.
  destruct (ExtractBearerToken_inv ctx)
    as [(e & Hr' & _) | (md & before & token' & after & Hmd & Hkey & Hb & Hr')];
    rewrite Hr in Hr'; [discriminate |].
  injection Hr' as <-. now exists md, before, after.
Qed.

Lemma ExtractBearerToken_sound_witness :
  exists (md : gmap string (list string)) (before after : list string),
    FromIncomingContext
      (NewIncomingContext context.Background
         {[ "authorization" := ["Basic dXNlcg=="; "Bearer abc123"] ]}) = Some md
    /\ md !! "authorization" = Some (before ++ ("Bearer " +:+ "abc123") :: after)
    /\ Forall (fun v => ~ starts_with "Bearer " v) before.
Proof.
  apply (ExtractBearerToken_sound
           (NewIncomingContext context.Background
              {[ "authorization" := ["Basic dXNlcg=="; "Bearer abc123"] ]})
           "abc123").
  vm_compute. reflexivity.
Defined.

(** X2. A token returned by ExtractRequestToken without an error was
    presented: the authorization header value is "Bearer " or "Istio "
    followed by exactly that token, so the value is not empty and prefixing
    the token again gives it back. *)
Theorem ExtractRequestToken_sound (req : http.Request) (token : string) :
  ExtractRequestToken req = (token, None) ->
  authorization_value req <> ""
  /\ (authorization_value req = BearerTokenPrefix +:+ token
      \/ authorization_value req = K8sTokenPrefix +:+ token).
Proof.
  intros Hr.
  destruct (ExtractRequestToken_inv req)
    as [(e & Hr' & _) | (token' & Hvalue & Hr')];
    rewrite Hr in Hr'; [discriminate |].
  injection Hr' as <-.
  split; [| exact Hvalue].
  destruct Hvalue as [-> | ->]; discriminate.
Qed.

Lemma ExtractRequestToken_sound_witness :
  authorization_value
    {| http.Header_of := {[ "Authorization" := ["Istio xyz"] ]} |} <> ""
  /\ (authorization_value
        {| http.Header_of := {[ "Authorization" := ["Istio xyz"] ]} |}
      = BearerTokenPrefix +:+ "xyz"
      \/ authorization_value
           {| http.Header_of := {[ "Authorization" := ["Istio xyz"] ]} |}
         = K8sTokenPrefix +:+ "xyz").
Proof.
  apply (ExtractRequestToken_sound
           {| http.Header_of := {[ "Authorization" := ["Istio xyz"] ]} |} "xyz").
  vm_compute. reflexivity.
Defined.

(** X3. ExtractRequestToken looks at the first value of the "Authorization"
    entry and at nothing else: the further values of the entry and all other
    header entries do not change its result.  A bearer token in a second
    value is therefore not found. *)
Theorem ExtractRequestToken_first_value_only
    (h : gmap string (list string)) (v : string) (rest : list string) :
  h !! "Authorization" = Some (v :: rest) ->
  ExtractRequestToken {| http.Header_of := h |}
  = ExtractRequestToken {| http.Header_of := {[ "Authorization" := [v] ]} |}.
Proof.
  intros Hkey. unfold ExtractRequestToken. simpl.
  rewrite !Header_Get_authorization, Hkey.
  now rewrite lookup_singleton_eq.
Qed.

Lemma ExtractRequestToken_first_value_only_witness :
  ExtractRequestToken
    {| http.Header_of :=
         {[ "Authorization" := ["Basic dXNlcg=="; "Bearer abc"];
            "X-Request-Id" := ["42"] ]} |}
  = ("", Some "no bearer token exists in HTTP authorization header").
Proof.
  rewrite (ExtractRequestToken_first_value_only
             {[ "Authorization" := ["Basic dXNlcg=="; "Bearer abc"];
                "X-Request-Id" := ["42"] ]}
             "Basic dXNlcg==" ["Bearer abc"]).
  - vm_compute. reflexivity.
  - vm_compute. reflexivity.
Defined.

(** X4. ExtractRequestToken reports "no HTTP authorization header exists"
    exactly when the header has no "Authorization" entry, or the entry has
    no value, or its first value is the empty string: a header that is
    present but empty is not told apart from an absent one. *)
Theorem ExtractRequestToken_no_header_iff (req : http.Request) :
  ExtractRequestToken req = ("", Some "no HTTP authorization header exists")
  <-> (http.Header_of req !! "Authorization" = None
       \/ http.Header_of req !! "Authorization" = Some []
       \/ exists rest, http.Header_of req !! "Authorization" = Some ("" :: rest)).
Proof.
  assert (Hval : authorization_value req = ""
                 <-> (http.Header_of req !! "Authorization" = None
                      \/ http.Header_of req !! "Authorization" = Some []
                      \/ exists rest,
                          http.Header_of req !! "Authorization"
                          = Some ("" :: rest))).
  { unfold authorization_value.
    change "authorization" with authorizationMeta.
    rewrite Header_Get_authorization.
    destruct (http.Header_of req !! "Authorization") as [[|v rest]|].
    - split; [auto | reflexivity].
    - split.
      + intros ->. right. right. now exists rest.
      + intros [H | [H | [rest' H]]]; try discriminate.
        now injection H as -> _.
    - split; [auto | reflexivity]. }
  rewrite <- Hval.
  destruct (ExtractRequestToken_inv req)
    as [(e & Hr & Hn) | (token & Hvalue & Hr)]; rewrite Hr.
  - destruct Hn as [Hempty | Hne _ _].
    + split; [intros _; exact Hempty | reflexivity].
    + split; [discriminate | contradiction].
  - split; [discriminate |].
    intros Hempty. rewrite Hempty in Hvalue. destruct Hvalue; discriminate.
Qed.

Lemma ExtractRequestToken_no_header_iff_witness :
  ExtractRequestToken
    {| http.Header_of := {[ "Authorization" := [""; "Bearer abc"] ]} |}
  = ("", Some "no HTTP authorization header exists").
Proof.
  apply (proj2 (ExtractRequestToken_no_header_iff
                  {| http.Header_of :=
                       {[ "Authorization" := [""; "Bearer abc"] ]} |})).
  right. right. exists ["Bearer abc"]. vm_compute. reflexivity.
Defined.

(** X5. ExtractBearerToken over a concatenated list of authorization values
    is the extraction over the first list when that succeeds, and the
    extraction over the second list otherwise: values are tried in order and
    values added after an accepted one never change the token. *)
Theorem ExtractBearerToken_app
    (md md1 md2 : gmap string (list string)) (vs1 vs2 : list string) :
  md1 !! "authorization" = Some vs1 ->
  md2 !! "authorization" = Some vs2 ->
  md !! "authorization" = Some (vs1 ++ vs2) ->
  ExtractBearerToken (NewIncomingContext context.Background md)
  = match snd (ExtractBearerToken (NewIncomingContext context.Background md1)) with
    | None => ExtractBearerToken (NewIncomingContext context.Background md1)
    | Some _ => ExtractBearerToken (NewIncomingContext context.Background md2)
    end.
Proof.
  intros H1 H2 H. unfold ExtractBearerToken. simpl.
  change authorizationMeta with "authorization".
  rewrite H1, H2, H, firstBearer_app.
  now destruct (firstBearer vs1).
Qed.

Lemma ExtractBearerToken_app_witness :
  ExtractBearerToken
    (NewIncomingContext context.Background
       {[ "authorization" := ["Basic dXNlcg=="; "Istio xyz"; "Bearer abc"; "Bearer def"] ]})
  = ("abc", None).
Proof.
  rewrite (ExtractBearerToken_app
             {[ "authorization" :=
                  ["Basic dXNlcg=="; "Istio xyz"; "Bearer abc"; "Bearer def"] ]}
             {[ "authorization" := ["Basic dXNlcg=="; "Istio xyz"] ]}
             {[ "authorization" := ["Bearer abc"; "Bearer def"] ]}
             ["Basic dXNlcg=="; "Istio xyz"] ["Bearer abc"; "Bearer def"]).
  - vm_compute. reflexivity.
  - vm_compute. reflexivity.
  - vm_compute. reflexivity.
  - vm_compute. reflexivity.
Defined.

(** X6. On one and the same authorization value the two extractors agree
    whenever ExtractBearerToken accepts it: ExtractRequestToken then returns
    the same token.  The converse fails only for the "Istio " prefix, which
    ExtractRequestToken strips and ExtractBearerToken rejects. *)
Theorem extractors_on_same_value (v token : string) :
  (ExtractBearerToken
     (NewIncomingContext context.Background {[ "authorization" := [v] ]})
   = (token, None) ->
   ExtractRequestToken {| http.Header_of := {[ "Authorization" := [v] ]} |}
   = (token, None))
  /\ (ExtractRequestToken {| http.Header_of := {[ "Authorization" := [v] ]} |}
      = (token, None) ->
      ExtractBearerToken
        (NewIncomingContext context.Background {[ "authorization" := [v] ]})
      = (token, None)
      \/ (v = "Istio " +:+ token
          /\ ExtractBearerToken
               (NewIncomingContext context.Background
                  {[ "authorization" := [v] ]})
             = ("", Some "no bearer token exists in HTTP authorization header"))).
Proof.
  unfold ExtractBearerToken, ExtractRequestToken. simpl.
  change authorizationMeta with "authorization".
  rewrite lookup_singleton_eq.
  change "authorization" with authorizationMeta.
  rewrite Header_Get_authorization, lookup_singleton_eq. simpl.
  destruct (String.eqb v "") eqn:Hempty.
  { apply String.eqb_eq in Hempty. subst v. split; discriminate. }
  destruct (strings.HasPrefix v BearerTokenPrefix) eqn:Hb.
  { split; [auto | now left]. }
  split; [discriminate |].
  destruct (strings.HasPrefix v K8sTokenPrefix) eqn:Hk; [| discriminate].
  intros Hr. right. split; [| reflexivity].
  apply HasPrefix_true in Hk as [t ->].
  rewrite TrimPrefix_app in Hr. now injection Hr as ->.
Qed.

Lemma extractors_on_same_value_witness :
  ExtractRequestToken
    {| http.Header_of := {[ "Authorization" := ["Bearer abc"] ]} |}
  = ("abc", None)
  /\ ("Istio xyz" = "Istio " +:+ "xyz"
      /\ ExtractBearerToken
           (NewIncomingContext context.Background
              {[ "authorization" := ["Istio xyz"] ]})
         = ("", Some "no bearer token exists in HTTP authorization header")).
Proof.
  split.
  - apply (proj1 (extractors_on_same_value "Bearer abc" "abc")).
    vm_compute. reflexivity.
  - destruct (proj2 (extractors_on_same_value "Istio xyz" "xyz")) as [H | H].
    + vm_compute. reflexivity.
    + vm_compute in H. discriminate H.
    + exact H.
Defined.

(** ** Sanity checks on the audience list *)

Example Split_two_byte_separator :
  strings.Split "a--b---c" "--" = ["a"; "b"; "-c"].
Proof. vm_compute. reflexivity. Qed.

Example Count_non_overlapping : strings.Count "aaaaa" "aa" = 2.
Proof. vm_compute. reflexivity. Qed.

Example TokenAudiences_spaces_kept :
  TokenAudiences {[ "TOKEN_AUDIENCES" := "istio-ca,,a b, c," ]}
  = ["istio-ca"; ""; "a b"; " c"; ""].
Proof. vm_compute. reflexivity. Qed.

(** * Splitting the audience list *)

Section GoSplit.

Lemma Index_eq (s sub : string) :
  strings.Index s sub
  = if strings.HasPrefix s sub then Some 0
    else match s with
         | EmptyString => None
         | String _ rest => option_map S (strings.Index rest sub)
         end.
Proof. destruct s; reflexivity. Qed.

Lemma append_cons (c : ascii) (a b : string) :
  String c a +:+ b = String c (a +:+ b).
Proof. reflexivity. Qed.

Lemma append_assoc (a b c : string) : (a +:+ b) +:+ c = a +:+ (b +:+ c).
Proof.
  induction a as [|x a IH]; [reflexivity |].
  now rewrite !append_cons, IH.
Qed.

Lemma slice_to_0 (s : string) : strings.slice_to s 0 = "".
Proof. now destruct s. Qed.

Lemma slice_to_cons (c : ascii) (s : string) (m : nat) :
  strings.slice_to (String c s) (S m) = String c (strings.slice_to s m).
Proof. reflexivity. Qed.

Lemma slice_from_cons (c : ascii) (s : string) (m : nat) :
  strings.slice_from (String c s) (S m) = strings.slice_from s m.
Proof. reflexivity. Qed.

Lemma HasPrefix_empty (sub : string) :
  sub <> "" -> strings.HasPrefix "" sub = false.
Proof. destruct sub; [contradiction | reflexivity]. Qed.

Lemma HasPrefix_split (s sub : string) :
  strings.HasPrefix s sub = true ->
  s = strings.slice_to s 0 +:+ sub
      +:+ strings.slice_from s (0 + String.length sub).
Proof.
  intros E. apply HasPrefix_true in E as [t ->].
  now rewrite slice_to_0, slice_from_app.
Qed.

Lemma HasPrefix_length (s sub : string) :
  strings.HasPrefix s sub = true ->
  (0 + String.length sub
   + String.length (strings.slice_from s (0 + String.length sub))
   = String.length s)%nat
  /\ String.length (strings.slice_to s 0) = 0.
Proof.
  intros E. apply HasPrefix_true in E as [t ->].
  rewrite slice_to_0, slice_from_app, length_append. split; [lia | reflexivity].
Qed.

(** An instance found at [m] cuts [s] in three. *)
Lemma Index_Some_split (s sub : string) (m : nat) :
  strings.Index s sub = Some m ->
  s = strings.slice_to s m +:+ sub
      +:+ strings.slice_from s (m + String.length sub).
Proof.
  revert m. induction s as [|c s IH]; intros m; rewrite Index_eq.
  - destruct (strings.HasPrefix "" sub) eqn:E; [| discriminate].
    intros [= <-]. now apply HasPrefix_split.
  - destruct (strings.HasPrefix (String c s) sub) eqn:E.
    + intros [= <-]. now apply HasPrefix_split.
    + destruct (strings.Index s sub) as [m'|] eqn:Hi; [| discriminate].
      intros [= <-]. rewrite slice_to_cons. simpl Nat.add.
      rewrite slice_from_cons, append_cons. f_equal. now apply IH.
Qed.

Lemma Index_Some_length (s sub : string) (m : nat) :
  strings.Index s sub = Some m ->
  (m + String.length sub
   + String.length (strings.slice_from s (m + String.length sub))
   = String.length s)%nat
  /\ String.length (strings.slice_to s m) = m.
Proof.
  revert m. induction s as [|c s IH]; intros m; rewrite Index_eq.
  - destruct (strings.HasPrefix "" sub) eqn:E; [| discriminate].
    intros [= <-]. now apply HasPrefix_length.
  - destruct (strings.HasPrefix (String c s) sub) eqn:E.
    + intros [= <-]. now apply HasPrefix_length.
    + destruct (strings.Index s sub) as [m'|] eqn:Hi; [| discriminate].
      intros [= <-]. rewrite slice_to_cons. simpl Nat.add.
      rewrite slice_from_cons. destruct (IH m' eq_refl) as [H1 H2].
      simpl. split; lia.
Qed.

Lemma HasPrefix_app_l (s sub t : string) :
  strings.HasPrefix s sub = true -> strings.HasPrefix (s +:+ t) sub = true.
Proof.
  intros H. apply HasPrefix_true in H as [u ->]. apply HasPrefix_true.
  exists (u +:+ t). apply append_assoc.
Qed.

(** Nothing before the first instance holds an instance. *)
Lemma Index_before_None (s sub : string) (m : nat) :
  sub <> "" ->
  strings.Index s sub = Some m ->
  strings.Index (strings.slice_to s m) sub = None.
Proof.
  intros Hsub. revert m. induction s as [|c s IH]; intros m; rewrite Index_eq.
  - destruct (strings.HasPrefix "" sub) eqn:E; [| discriminate].
    intros [= <-]. now rewrite HasPrefix_empty in E.
  - destruct (strings.HasPrefix (String c s) sub) eqn:E.
    + intros [= <-]. rewrite slice_to_0, Index_eq.
      now rewrite HasPrefix_empty.
    + destruct (strings.Index s sub) as [m'|] eqn:Hi; [| discriminate].
      intros [= <-]. rewrite slice_to_cons, Index_eq.
      destruct (strings.HasPrefix (String c (strings.slice_to s m')) sub) eqn:E'.
      * apply (HasPrefix_app_l _ _
                 (sub +:+ strings.slice_from s (m' + String.length sub))) in E'.
        rewrite append_cons, <- (Index_Some_split s sub m' Hi) in E'.
        congruence.
      * now rewrite (IH m' eq_refl).
Qed.

(** Index finds an instance exactly when there is one. *)
Lemma Index_None_iff (s sub : string) :
  strings.Index s sub = None <-> ~ contains sub s.
Proof.
  split.
  - intros Hi (a & b & ->). revert Hi.
    induction a as [|c a IH]; rewrite Index_eq.
    + change ("" +:+ sub +:+ b) with (sub +:+ b). now rewrite HasPrefix_app.
    + rewrite append_cons.
      destruct (strings.HasPrefix (String c (a +:+ sub +:+ b)) sub);
        [discriminate |].
      destruct (strings.Index (a +:+ sub +:+ b) sub) eqn:E;
        [discriminate | intros _; now apply IH].
  - intros Hc. destruct (strings.Index s sub) as [m|] eqn:Hi; [| reflexivity].
    exfalso. apply Hc. eexists _, _. exact (Index_Some_split s sub m Hi).
Qed.

Lemma countLoop_le (fuel : nat) (s sub : string) :
  (strings.countLoop fuel s sub <= fuel)%nat.
Proof.
  revert s. induction fuel as [|fuel IH]; intros s; simpl; [lia |].
  destruct (strings.Index s sub); [| lia].
  specialize (IH (strings.slice_from s (n + String.length sub))). lia.
Qed.

(** The bound [len(s)+1] of genSplit never applies. *)
Lemma Split_eq (s sep : string) :
  strings.Split s sep = strings.splitLoop (strings.Count s sep) s sep.
Proof.
  unfold strings.Split.
  pose proof (countLoop_le (String.length s) s sep) as Hle.
  fold (strings.Count s sep) in Hle.
  destruct (String.length s + 1 <? strings.Count s sep + 1)%nat eqn:E.
  - apply Nat.ltb_lt in E. lia.
  - f_equal. lia.
Qed.

Lemma splitLoop_not_nil (k : nat) (s sep : string) :
  strings.splitLoop k s sep <> [].
Proof.
  destruct k; simpl; [discriminate |].
  destruct (strings.Index s sep); discriminate.
Qed.

Lemma join_with_cons (sep a : string) (l : list string) :
  l <> [] -> join_with sep (a :: l) = a +:+ sep +:+ join_with sep l.
Proof. destruct l; [contradiction | reflexivity]. Qed.

(** Whatever the number of rounds, the pieces joined by [sep] are [s]. *)
Lemma splitLoop_join (k : nat) (s sep : string) :
  join_with sep (strings.splitLoop k s sep) = s.
Proof.
  revert s. induction k as [|k IH]; intros s; simpl; [reflexivity |].
  destruct (strings.Index s sep) as [m|] eqn:Hi; [| reflexivity].
  rewrite join_with_cons by apply splitLoop_not_nil.
  rewrite IH. symmetry. now apply Index_Some_split.
Qed.

(** With the rounds that Count allows, no piece holds an instance. *)
Lemma splitLoop_count_free (fuel : nat) (s sep : string) :
  sep <> "" ->
  (String.length s <= fuel)%nat ->
  Forall (fun piece => ~ contains sep piece)
         (strings.splitLoop (strings.countLoop fuel s sep) s sep).
Proof.
  intros Hsep. revert s. induction fuel as [|fuel IH]; intros s Hlen; simpl.
  - constructor; [| constructor]. apply Index_None_iff.
    destruct s; [| simpl in Hlen; lia].
    rewrite Index_eq. now rewrite HasPrefix_empty.
  - destruct (strings.Index s sep) as [m|] eqn:Hi; simpl.
    + rewrite Hi. constructor.
      * apply Index_None_iff. now apply Index_before_None.
      * apply IH. destruct (Index_Some_length s sep m Hi) as [H _].
        destruct sep; [contradiction | simpl in *; lia].
    + constructor; [| constructor]. now apply Index_None_iff.
Qed.

End GoSplit.

Section CommaSeparated.

Lemma HasPrefix_one (x c : ascii) (s : string) :
  strings.HasPrefix (String x s) (String c "") = Ascii.eqb x c.
Proof.
  unfold strings.HasPrefix, strings.slice_to. simpl.
  destruct s; simpl; destruct (Ascii.eqb x c); reflexivity.
Qed.

Lemma not_contains_cons (c x : ascii) (a : string) :
  ~ contains (String c "") (String x a) ->
  x <> c /\ ~ contains (String c "") a.
Proof.
  intros H. split.
  - intros ->. apply H. now exists "", a.
  - intros (u & v & ->). apply H. now exists (String x u), v.
Qed.

(** In [a], a separator byte and more, with no separator byte in [a], the
    first instance is right after [a]. *)
Lemma Index_after_free (c : ascii) (a rest : string) :
  ~ contains (String c "") a ->
  strings.Index (a +:+ String c "" +:+ rest) (String c "")
  = Some (String.length a).
Proof.
  induction a as [|x a IH]; intros Hfree; rewrite Index_eq.
  - change ("" +:+ String c "" +:+ rest) with (String c "" +:+ rest).
    now rewrite HasPrefix_app.
  - apply not_contains_cons in Hfree as [Hx Hfree].
    rewrite append_cons, HasPrefix_one.
    apply Ascii.eqb_neq in Hx. rewrite Hx, (IH Hfree). reflexivity.
Qed.

Lemma slice_after_free (c : ascii) (a rest : string) :
  strings.slice_to (a +:+ String c "" +:+ rest) (String.length a) = a
  /\ strings.slice_from (a +:+ String c "" +:+ rest)
       (String.length a + String.length (String c "")) = rest.
Proof.
  split; [apply slice_to_app |].
  rewrite <- append_assoc, <- length_append. apply slice_from_app.
Qed.

(** Splitting what was joined gives the pieces back, when no piece holds a
    separator byte. *)
Lemma splitLoop_of_join (c : ascii) (l : list string) (fuel : nat) :
  l <> [] ->
  Forall (fun piece => ~ contains (String c "") piece) l ->
  (String.length (join_with (String c "") l) <= fuel)%nat ->
  strings.splitLoop
    (strings.countLoop fuel (join_with (String c "") l) (String c ""))
    (join_with (String c "") l) (String c "")
  = l.
Proof.
  revert fuel. induction l as [|a l IH]; intros fuel Hne Hfree Hlen;
    [contradiction |].
  inversion Hfree as [|? ? Ha Hl]; subst.
  destruct l as [|b l].
  - simpl join_with in *. apply Index_None_iff in Ha.
    destruct fuel; simpl; [reflexivity | now rewrite Ha].
  - rewrite join_with_cons in * by discriminate.
    set (rest := join_with (String c "") (b :: l)) in *.
    destruct (slice_after_free c a rest) as [Hto Hfrom].
    destruct fuel as [|fuel].
    { rewrite !length_append in Hlen. simpl in Hlen. lia. }
    cbn [strings.countLoop]. rewrite (Index_after_free c a rest Ha).
    cbn [strings.splitLoop]. rewrite (Index_after_free c a rest Ha), Hto, Hfrom.
    f_equal. apply IH; [discriminate | exact Hl |].
    rewrite !length_append in Hlen. simpl in Hlen. lia.
Qed.

End CommaSeparated.

Lemma TokenAudiences_eq (environ : gmap string string) :
  TokenAudiences environ
  = strings.Split
      (match environ !! "TOKEN_AUDIENCES" with
       | Some value => value
       | None => "istio-ca"
       end) ",".
Proof. reflexivity. Qed.

(** X7. The audiences are never an empty list, and written one after the
    other with commas between them they give back the value of
    TOKEN_AUDIENCES, or "istio-ca" when the variable is not set: nothing is
    trimmed, dropped or reordered. *)
Theorem TokenAudiences_join (environ : gmap string string) :
  TokenAudiences environ <> []
  /\ join_with "," (TokenAudiences environ)
     = match environ !! "TOKEN_AUDIENCES" with
       | Some value => value
       | None => "istio-ca"
       end.
Proof.
  rewrite TokenAudiences_eq, Split_eq. split.
  - apply splitLoop_not_nil.
  - apply splitLoop_join.
Qed.

(** X8. No audience holds a comma. *)
Theorem TokenAudiences_comma_free (environ : gmap string string) :
  Forall (fun audience => ~ contains "," audience) (TokenAudiences environ).
Proof.
  rewrite TokenAudiences_eq, Split_eq.
  apply splitLoop_count_free; [discriminate | lia].
Qed.

(** X9. When the value of TOKEN_AUDIENCES, or "istio-ca" when the variable
    is not set, is a list of audiences written with commas between them,
    none of which holds a comma, the audiences are exactly those, in that
    order.  An empty audience is kept: the empty value gives one audience,
    the empty string. *)
Theorem TokenAudiences_of_join
    (environ : gmap string string) (audiences : list string) :
  audiences <> [] ->
  Forall (fun audience => ~ contains "," audience) audiences ->
  environ !! "TOKEN_AUDIENCES" = Some (join_with "," audiences)
  \/ (environ !! "TOKEN_AUDIENCES" = None
      /\ join_with "," audiences = "istio-ca") ->
  TokenAudiences environ = audiences.
Proof.
  intros Hne Hfree Hvalue.
  rewrite TokenAudiences_eq, Split_eq.
  assert (Hv : match environ !! "TOKEN_AUDIENCES" with
               | Some value => value
               | None => "istio-ca"
               end = join_with "," audiences).
  { destruct Hvalue as [-> | [-> ->]]; reflexivity. }
  rewrite Hv. now apply (splitLoop_of_join ","%char audiences).
Qed.

Lemma TokenAudiences_of_join_witness :
  TokenAudiences {[ "TOKEN_AUDIENCES" := "istio-ca, other," ]}
  = ["istio-ca"; " other"; ""]
  /\ TokenAudiences {[ "TOKEN_AUDIENCES" := "" ]} = [""]
  /\ TokenAudiences ∅ = ["istio-ca"].
Proof.
  split; [| split].
  - apply (TokenAudiences_of_join
             {[ "TOKEN_AUDIENCES" := "istio-ca, other," ]}
             ["istio-ca"; " other"; ""]).
    + discriminate.
    + repeat constructor; apply Index_None_iff; vm_compute; reflexivity.
    + left. vm_compute. reflexivity.
  - apply (TokenAudiences_of_join {[ "TOKEN_AUDIENCES" := "" ]} [""]).
    + discriminate.
    + repeat constructor; apply Index_None_iff; vm_compute; reflexivity.
    + left. vm_compute. reflexivity.
  - apply (TokenAudiences_of_join ∅ ["istio-ca"]).
    + discriminate.
    + repeat constructor; apply Index_None_iff; vm_compute; reflexivity.
    + right. split; vm_compute; reflexivity.
Defined.
